(** * schemathesis.cli: the [run] command

    A shallow embedding of [src/schemathesis/cli/__init__.py].  The command
    selects checks, resolves the credential, prunes the options, calls the
    engine under a stdout listener, prints the report and decides the exit
    status.  Python values that travel through keyword dictionaries are
    embedded in one universal type; printing, the listener and exceptions are
    threaded through a small state-and-exception monad. *)

From Stdlib Require Import ZArith Ascii String List Bool.
From stdpp Require Import base option list strings gmap.

Local Open Scope string_scope.
Local Open Scope Z_scope.
Local Open Scope list_scope.
Set Warnings "-register-all".

(** ** Python values and truthiness *)

(** The values that reach a keyword dictionary or a statistics record. *)
Inductive pyval : Type :=
| VNone
| VBool (b : bool)
| VInt (n : Z)
| VStr (s : string)
| VTuple (items : list pyval)
| VList (items : list pyval)
| VDict (items : list (string * pyval))
| HTTPDigestAuth (username password : string).

(** [bool(value)]: [None], [False], zero and empty containers are false; an
    object without [__bool__] or [__len__] (requests' [HTTPDigestAuth]) is
    true. *)
Definition truthy (v : pyval) : bool :=
  match v with
  | VNone => false
  | VBool b => b
  | VInt n => negb (n =? 0)
  | VStr s => negb (String.eqb s EmptyString)
  | VTuple items | VList items => negb (Nat.eqb (List.length items) 0)
  | VDict items => negb (Nat.eqb (List.length items) 0)
  | HTTPDigestAuth _ _ => true
  end.

(** A dictionary built from keyword arguments, in insertion order. *)
Definition kwargs : Type := list (string * pyval).

(** [d.get(key)] on an insertion-ordered dictionary. *)
Fixpoint kw_get (d : kwargs) (key : string) : pyval :=
  match d with
  | [] => VNone
  | (k, v) :: rest => if String.eqb k key then v else kw_get rest key
  end.

(** [key in d]. *)
Definition kw_has (d : kwargs) (key : string) : bool :=
  existsb (fun kv => String.eqb (fst kv) key) d.

(** Modelled from the spec: [utils.dict_true_values] (the spec's
    [pruneEmpty]) is imported by the command but its module is not part of
    the sources.  Per the spec it builds a dictionary from its keyword
    arguments and leaves out every key whose value is falsy. *)
Definition dict_true_values (kw : kwargs) : kwargs :=
  List.filter (fun kv => truthy (snd kv)) kw.

(** ** click's [Choice] parameter type *)

Definition ascii_lower (c : ascii) : ascii :=
  let n := nat_of_ascii c in
  if (Nat.leb 65 n && Nat.leb n 90)%bool then ascii_of_nat (n + 32) else c.

(** [str.lower] on ASCII text. *)
Fixpoint lower (s : string) : string :=
  match s with
  | EmptyString => EmptyString
  | String c rest => String (ascii_lower c) (lower rest)
  end.

Record Choice : Type := { choices : list string; case_sensitive : bool }.

(** [Choice.convert]: an exact match is returned as is; otherwise value and
    choices are compared after lower-casing (when [case_sensitive] is off)
    and the matching declared choice is the converted value.  [None] is the
    usage error raised by [self.fail]. *)
Definition Choice_convert (t : Choice) (value : string) : option string :=
  if bool_decide (value ∈ choices t) then Some value
  else
    let norm := fun s => if case_sensitive t then s else lower s in
    List.find (fun c => String.eqb (norm c) (norm value)) (choices t).

(** The type of [--auth-type]: [click.Choice(["basic", "digest"],
    case_sensitive=False)]. *)
Definition auth_type_choice : Choice :=
  {| choices := ["basic"; "digest"]; case_sensitive := false |}.

(** ** Exceptions and the process exit status *)

(** [click.exceptions.Exit(code)] and every other exception, kept by class
    name and message. *)
Inductive exn : Type :=
| Exit (code : Z)
| Error (class message : string).

(** The status the process ends with: 0 when the command returns, the code
    of a [click.exceptions.Exit], 1 for an exception nobody caught. *)
Definition exit_status {A : Type} (r : A + exn) : Z :=
  match r with
  | inl _ => 0
  | inr (Exit code) => code
  | inr (Error _ _) => 1
  end.

(** ** Statistics *)

(** One outcome record, read with [value.get("error")]. *)
Abbreviation record := (gmap string pyval).

(** The collector returned by [runner.execute]; only [data] is read. *)
Record StatsCollector : Type := { data : gmap string record }.

(** [value.get("error")]: [None] when the key is missing. *)
Definition record_get (value : record) (key : string) : pyval :=
  default VNone (value !! key).

(** [stats.data.values()]. *)
Definition data_values (stats : StatsCollector) : list record :=
  (map_to_list (data stats)).*2.

(** [any(value.get("error") for value in stats.data.values())]. *)
Definition any_error (stats : StatsCollector) : bool :=
  existsb (fun value => truthy (record_get value "error")) (data_values stats).

(** ** Sample collaborators

    A small engine to run the command on: two checks known by their names,
    collectors as the engine's counters would fill them, and engines that
    pass, fail and raise. *)

Definition sample_schema : string := "https://api.example.com/openapi.json".

Definition sample_checks : list string :=
  ["not_a_server_error"; "status_code_conformance"].

Definition sample_passed : StatsCollector :=
  {| data := {[ "not_a_server_error" := <["ok" := VInt 2]> {[ "total" := VInt 2 ]} ]} |}.

Definition sample_failed : StatsCollector :=
  {| data := {[ "not_a_server_error" :=
                  <["error" := VInt 1]> (<["ok" := VInt 1]> {[ "total" := VInt 2 ]}) ]} |}.

Definition sample_failed_verbose : StatsCollector :=
  {| data := {[ "not_a_server_error" :=
                  <["error" := VInt 1]> (<["ok" := VInt 41]> {[ "total" := VInt 42 ]}) ]} |}.

Definition passing_engine (schema : string) (checks : list string) (opts : kwargs)
  : list string * (StatsCollector + exn) :=
  (["2 examples generated"], inl sample_passed).

Definition failing_engine (schema : string) (checks : list string) (opts : kwargs)
  : list string * (StatsCollector + exn) :=
  (["Falsifying example"], inl sample_failed).

Definition failing_engine_verbose (schema : string) (checks : list string) (opts : kwargs)
  : list string * (StatsCollector + exn) :=
  (["Falsifying example"; "shrunk 40 times"], inl sample_failed_verbose).

Definition raising_engine (schema : string) (checks : list string) (opts : kwargs)
  : list string * (StatsCollector + exn) :=
  (["X-diagnostic"], inr (Error "ConnectionError" "schema unreachable")).

Definition sample_report (stats : StatsCollector) (hypothesis_out : string) : list string :=
  ["report: "; hypothesis_out].

Definition sample_style (text fg : string) : string :=
  ("<" ++ fg ++ ">" ++ text)%string.

(** ** The command *)

Section Run.

(** A check is an opaque function object known by its [__name__]. *)
Variable check : Type.
Variable check_name : check -> string.

(** [runner.DEFAULT_CHECKS], the engine's checks in its own order. *)
Variable DEFAULT_CHECKS : list check.

(** [DEFAULT_CHECKS_NAMES = tuple(check.__name__ for check in
    runner.DEFAULT_CHECKS)]. *)
Definition DEFAULT_CHECKS_NAMES : list string := List.map check_name DEFAULT_CHECKS.

(** The arguments of one [runner.execute] call: the schema, the [checks]
    keyword and the keywords unpacked from [options]. *)
Record call : Type := Call {
  call_schema : string;
  call_checks : list check;
  call_options : kwargs;
}.

(** What the command can observe and change: the chunks written to the
    stream installed as [sys.stdout], the streams displaced by the open
    listener scopes (innermost first), and the engine calls made so far. *)
Record world : Type := World {
  sys_stdout : list string;
  saved_stdout : list (list string);
  engine_calls : list call;
}.

(** [runner.execute]: the text the engine writes to [sys.stdout] while it
    runs, and the collector it returns or the exception it raises. *)
Variable execute : string -> list check -> kwargs -> list string * (StatsCollector + exn).

(** [output.pretty_print_stats]: the chunks of the rendered report. *)
Variable pretty_print_stats : StatsCollector -> string -> list string.

(** [click.style(text, fg=...)]: the text wrapped in colour codes. *)
Variable style : string -> string -> string.

(** A computation reads and changes the world and either returns a value or
    raises; the world survives a raise. *)
Definition M (A : Type) : Type := world -> (A + exn) * world.

Definition ret {A : Type} (a : A) : M A := fun w => (inl a, w).

Definition raise {A : Type} (e : exn) : M A := fun w => (inr e, w).

Definition bind {A B : Type} (m : M A) (k : A -> M B) : M B :=
  fun w =>
    match m w with
    | (inl a, w') => k a w'
    | (inr e, w') => (inr e, w')
    end.

Notation "x <- m ;; k" := (bind m (fun x => k))
  (at level 100, m at next level, right associativity).
Notation "m ;; k" := (bind m (fun _ => k))
  (at level 100, right associativity).

(** One write to [sys.stdout]. *)
Definition write (chunk : string) : M unit :=
  fun w => (inl tt, World (sys_stdout w ++ [chunk]) (saved_stdout w) (engine_calls w)).

Definition write_all (chunks : list string) : M unit :=
  fun w => (inl tt, World (sys_stdout w ++ chunks) (saved_stdout w) (engine_calls w)).

Definition newline : string := String (ascii_of_nat 10) EmptyString.

(** [click.echo(message)]: the message and a newline. *)
Definition echo (message : string) : M unit := write (message ++ newline)%string.

(** A context manager: what [__enter__] hands to the body and what
    [__exit__] does to the world.  Neither manager used here swallows an
    exception. *)
Record context_manager (A : Type) : Type := {
  cm_enter : world -> A * world;
  cm_exit : world -> world;
}.
Arguments cm_enter {A}.
Arguments cm_exit {A}.

(** [with cm as x: body]: [__exit__] runs when the body returns and when it
    raises; the body's exception then goes on to the caller. *)
Definition with_ {A B : Type} (cm : context_manager A) (body : A -> M B) : M B :=
  fun w =>
    let '(x, w1) := cm_enter cm w in
    let '(r, w2) := body x w1 in
    (r, cm_exit cm w2).

(** Modelled from the spec: [utils.stdout_listener] is imported by the
    command but its module is not part of the sources.  Per the spec it
    captures the stream for the duration of the scope: entering installs an
    empty buffer as [sys.stdout] and yields a getter for the buffered text;
    leaving restores the previous stream no matter how the scope ends.  The
    command reads the buffer through the getter on line 93 only, after the
    engine call of line 92 has returned. *)
Definition stdout_listener : context_manager (M string) :=
  {| cm_enter := fun w =>
       (fun w' => (inl (String.concat EmptyString (sys_stdout w')), w'),
        World [] (sys_stdout w :: saved_stdout w) (engine_calls w));
     cm_exit := fun w =>
       match saved_stdout w with
       | previous :: outer => World previous outer (engine_calls w)
       | [] => w
       end |}.

(** The engine call: its arguments are recorded, its output goes to
    [sys.stdout], and it returns or raises. *)
Definition runner_execute (schema : string) (checks : list check) (opts : kwargs)
  : M StatsCollector :=
  fun w =>
    let '(chunks, result) := execute schema checks opts in
    (result, World (sys_stdout w ++ chunks) (saved_stdout w)
                   (engine_calls w ++ [Call schema checks opts])).

(** [tuple(check for check in runner.DEFAULT_CHECKS if check.__name__ in
    checks)]. *)
Definition selected_checks (checks : list string) : list check :=
  List.filter (fun c => bool_decide (check_name c ∈ checks)) DEFAULT_CHECKS.

Definition of_optional_str (v : option string) : pyval :=
  match v with Some s => VStr s | None => VNone end.

Definition of_optional_pair (v : option (string * string)) : pyval :=
  match v with Some (a, b) => VTuple [VStr a; VStr b] | None => VNone end.

Definition of_optional_filter (v : option (list string)) : pyval :=
  match v with Some l => VTuple (List.map VStr l) | None => VNone end.

Definition of_headers (h : list (string * string)) : pyval :=
  VDict (List.map (fun kv => (fst kv, VStr (snd kv))) h).

(** Lines 83-84: when [auth and auth_type == "digest"], the pair is replaced
    by the [HTTPDigestAuth] object built from its two components. *)
Definition resolved_auth (auth : option (string * string)) (auth_type : string) : pyval :=
  if (truthy (of_optional_pair auth) && String.eqb auth_type "digest")%bool then
    match auth with
    | Some (username, password) => HTTPDigestAuth username password
    | None => VNone
    end
  else of_optional_pair auth.

(** Lines 86-89: the two option groups, each pruned, then pruned again as a
    pair. *)
Definition api_options (base_url : option string) (auth : pyval)
    (headers : list (string * string)) : kwargs :=
  dict_true_values
    [("base_url", of_optional_str base_url); ("auth", auth); ("headers", of_headers headers)].

Definition loader_options (endpoints methods : option (list string)) : kwargs :=
  dict_true_values
    [("endpoint", of_optional_filter endpoints); ("method", of_optional_filter methods)].

Definition options (auth : option (string * string)) (auth_type : string)
    (headers : list (string * string)) (endpoints methods : option (list string))
    (base_url : option string) : kwargs :=
  dict_true_values
    [("api_options",
      VDict (api_options base_url (resolved_auth auth auth_type) headers));
     ("loader_options", VDict (loader_options endpoints methods))].

(** The body of [run]. *)
Definition run (schema : string) (auth : option (string * string)) (auth_type : string)
    (headers : list (string * string)) (checks : list string)
    (endpoints methods : option (list string)) (base_url : option string) : M unit :=
  let selected := selected_checks checks in
  echo "Running schemathesis test cases ..." ;;
  let opts := options auth auth_type headers endpoints methods base_url in
  out <- with_ stdout_listener (fun get_stdout =>
           stats <- runner_execute schema selected opts ;;
           hypothesis_out <- get_stdout ;;
           ret (stats, hypothesis_out)) ;;
  write_all (pretty_print_stats (fst out) (snd out)) ;;
  echo EmptyString ;;
  if any_error (fst out) then
    echo (style "Tests failed." "red") ;;
    raise (Exit 1)
  else
    echo (style "Tests succeeded." "green").

(** The type of [--checks]: [click.Choice(DEFAULT_CHECKS_NAMES)], which
    compares case-sensitively by default. *)
Definition checks_choice : Choice :=
  {| choices := DEFAULT_CHECKS_NAMES; case_sensitive := true |}.

(** The first line the command prints. *)
Definition running_line : string :=
  ("Running schemathesis test cases ..." ++ newline)%string.

(** The sub-dictionary stored under [group], empty when the key is absent. *)
Definition kw_group (opts : kwargs) (group : string) : kwargs :=
  match kw_get opts group with
  | VDict d => d
  | _ => []
  end.

(** [needle in hay] on strings. *)
Fixpoint occurs_in (needle hay : string) : bool :=
  (String.prefix needle hay ||
   match hay with
   | EmptyString => false
   | String _ rest => occurs_in needle rest
   end)%bool.

(** Every piece of text the caller of the command is left with: what is on
    its [sys.stdout] and the message of the exception it receives. *)
Definition caller_text (outcome : (unit + exn) * world) : list string :=
  sys_stdout (snd outcome) ++
  match fst outcome with
  | inr (Error _ message) => [message]
  | _ => []
  end.

(** The diagnostic text reached the caller. *)
Definition diagnostics_preserved (text : string) (outcome : (unit + exn) * world) : bool :=
  existsb (occurs_in text) (caller_text outcome).

(** ** Properties *)

(** The whole command when the engine returns a collector. *)
Lemma run_returns schema auth auth_type headers checks endpoints methods base_url
    chunks stats w :
  execute schema (selected_checks checks)
          (options auth auth_type headers endpoints methods base_url)
    = (chunks, inl stats) ->
  run schema auth auth_type headers checks endpoints methods base_url w
    = (if any_error stats then inr (Exit 1) else inl tt,
       World (sys_stdout w ++ [running_line]
                ++ pretty_print_stats stats (String.concat EmptyString chunks)
                ++ [newline]
                ++ [(style (if any_error stats then "Tests failed." else "Tests succeeded.")
                           (if any_error stats then "red" else "green") ++ newline)%string])
             (saved_stdout w)
             (engine_calls w ++
                [Call schema (selected_checks checks)
                      (options auth auth_type headers endpoints methods base_url)])).
Proof.
  intros Hex.
  unfold run, bind, with_, runner_execute, echo, write, write_all, ret, raise; simpl.
  rewrite Hex; simpl.
  destruct (any_error stats); simpl; rewrite <- ?app_assoc; reflexivity.
Qed.

(** The whole command when the engine raises. *)
Lemma run_raises schema auth auth_type headers checks endpoints methods base_url
    chunks e w :
  execute schema (selected_checks checks)
          (options auth auth_type headers endpoints methods base_url)
    = (chunks, inr e) ->
  run schema auth auth_type headers checks endpoints methods base_url w
    = (inr e,
       World (sys_stdout w ++ [running_line]) (saved_stdout w)
             (engine_calls w ++
                [Call schema (selected_checks checks)
                      (options auth auth_type headers endpoints methods base_url)])).
Proof.
  intros Hex.
  unfold run, bind, with_, runner_execute, echo, write, write_all, ret, raise; simpl.
  rewrite Hex; reflexivity.
Qed.

(** [any] over the records is an existential over the map. *)
Lemma any_error_true stats :
  any_error stats = true <->
  exists k value, data stats !! k = Some value /\ truthy (record_get value "error") = true.
Proof.
  unfold any_error, data_values. rewrite existsb_exists. split.
  - intros (value & Hin & Ht). apply list_elem_of_In in Hin.
    apply list_elem_of_fmap in Hin as ([k v] & -> & Hkv).
    apply elem_of_map_to_list in Hkv. eauto.
  - intros (k & value & Hk & Ht). exists value. split; [|done].
    apply list_elem_of_In, list_elem_of_fmap. exists (k, value). split; [done|].
    by apply elem_of_map_to_list.
Qed.

Lemma any_error_false stats :
  any_error stats = false <->
  forall k value, data stats !! k = Some value -> truthy (record_get value "error") = false.
Proof.
  rewrite <- not_true_iff_false, any_error_true. split.
  - intros Hno k value Hk. apply not_true_iff_false. intros Ht. apply Hno; eauto.
  - intros Hall (k & value & Hk & Ht). rewrite (Hall _ _ Hk) in Ht. discriminate.
Qed.

(** The engine is called once, with the selected checks and the pruned
    options, however the call ends. *)
Lemma run_engine_call schema auth auth_type headers checks endpoints methods base_url w :
  engine_calls (snd (run schema auth auth_type headers checks endpoints methods base_url w))
  = engine_calls w ++
      [Call schema (selected_checks checks)
            (options auth auth_type headers endpoints methods base_url)].
Proof.
  destruct (execute schema (selected_checks checks)
              (options auth auth_type headers endpoints methods base_url))
    as [chunks [stats|e]] eqn:Hex.
  - by rewrite (run_returns _ _ _ _ _ _ _ _ _ _ w Hex).
  - by rewrite (run_raises _ _ _ _ _ _ _ _ _ _ w Hex).
Qed.

Lemma elem_of_selected_checks checks c :
  c ∈ selected_checks checks <-> c ∈ DEFAULT_CHECKS /\ check_name c ∈ checks.
Proof.
  unfold selected_checks.
  rewrite (list_elem_of_In (List.filter _ _)), filter_In, bool_decide_eq_true.
  by rewrite <- list_elem_of_In.
Qed.

Lemma filter_sublist {A : Type} (f : A -> bool) (l : list A) :
  sublist (List.filter f l) l.
Proof.
  induction l as [|a l IH]; simpl; [constructor|].
  destruct (f a); by constructor.
Qed.

Lemma filter_all {A : Type} (f : A -> bool) (l : list A) :
  (forall a, a ∈ l -> f a = true) -> List.filter f l = l.
Proof.
  induction l as [|a l IH]; simpl; intros Hall; [done|].
  rewrite (Hall a) by constructor. f_equal. apply IH. intros b Hb.
  apply Hall. by constructor.
Qed.

Lemma filter_NoDup {A : Type} (f : A -> bool) (l : list A) :
  NoDup l -> NoDup (List.filter f l).
Proof.
  induction 1 as [|a l Hnotin Hnd IH]; simpl; [constructor|].
  destruct (f a); [|done]. constructor; [|done].
  intros Hin. apply Hnotin. apply list_elem_of_In in Hin.
  apply filter_In in Hin as [Hin _]. by apply list_elem_of_In.
Qed.

(** C7: the selected checks are exactly the built-in checks whose name was
    requested, in the order of [runner.DEFAULT_CHECKS] whatever the order of
    the request; the default request, every built-in name, selects them all;
    and this selection is what the engine receives. *)
Theorem selected_checks_canonical (checks : list string) :
  (forall c, c ∈ selected_checks checks <-> c ∈ DEFAULT_CHECKS /\ check_name c ∈ checks)
  /\ sublist (selected_checks checks) DEFAULT_CHECKS
  /\ (forall checks', checks' ≡ₚ checks -> selected_checks checks' = selected_checks checks)
  /\ selected_checks DEFAULT_CHECKS_NAMES = DEFAULT_CHECKS
  /\ (forall schema auth auth_type headers endpoints methods base_url w,
        call_checks <$>
          last (engine_calls
                  (snd (run schema auth auth_type headers checks endpoints methods base_url w)))
        = Some (selected_checks checks)).
Proof.
  split; [apply elem_of_selected_checks|].
  split; [apply filter_sublist|].
  split.
  { intros checks' Hperm. unfold selected_checks. apply filter_ext. intros c.
    apply bool_decide_ext. by rewrite Hperm. }
  split.
  { apply filter_all. intros c Hc. apply bool_decide_eq_true.
    unfold DEFAULT_CHECKS_NAMES. apply list_elem_of_In, in_map. by apply list_elem_of_In. }
  intros. rewrite run_engine_call, last_snoc. reflexivity.
Qed.

(** C9: two requests naming the same set of checks select the same tuple,
    whatever the order and the repetitions; the selection takes each entry of
    [runner.DEFAULT_CHECKS] at most once, so it repeats no check when the
    built-in tuple repeats none. *)
Theorem selected_checks_set_invariant (checks1 checks2 : list string) :
  (forall name, name ∈ checks1 <-> name ∈ checks2) ->
  selected_checks checks1 = selected_checks checks2
  /\ sublist (selected_checks checks1) DEFAULT_CHECKS
  /\ (NoDup DEFAULT_CHECKS -> NoDup (selected_checks checks1)).
Proof.
  intros Hsame. split; [|split].
  - unfold selected_checks. apply filter_ext. intros c.
    apply bool_decide_ext, Hsame.
  - apply filter_sublist.
  - apply filter_NoDup.
Qed.

(** C1: no falsy value is stored in the options or in either sub-group; each
    of the five fields is present exactly when its value is truthy and then
    carries that value; a sub-group key is present exactly when one of its
    fields is, and then holds the pruned group; the engine receives these
    options, so with no auth, headers, filters or base URL it receives the
    schema and the selected checks only. *)
Theorem options_omit_falsy_fields (schema : string) (auth : option (string * string))
    (auth_type : string) (headers : list (string * string)) (checks : list string)
    (endpoints methods : option (list string)) (base_url : option string) (w : world) :
  let cred := resolved_auth auth auth_type in
  let api := api_options base_url cred headers in
  let loader := loader_options endpoints methods in
  let opts := options auth auth_type headers endpoints methods base_url in
  (forallb (fun kv => truthy (snd kv)) opts = true
   /\ forallb (fun kv => truthy (snd kv)) api = true
   /\ forallb (fun kv => truthy (snd kv)) loader = true)
  /\ (kw_has api "base_url" = truthy (of_optional_str base_url)
      /\ kw_has api "auth" = truthy (of_optional_pair auth)
      /\ kw_has api "headers" = truthy (of_headers headers)
      /\ kw_has loader "endpoint" = truthy (of_optional_filter endpoints)
      /\ kw_has loader "method" = truthy (of_optional_filter methods))
  /\ (kw_get api "base_url"
         = (if truthy (of_optional_str base_url) then of_optional_str base_url else VNone)
      /\ kw_get api "auth" = cred
      /\ kw_get api "headers"
         = (if truthy (of_headers headers) then of_headers headers else VNone)
      /\ kw_get loader "endpoint"
         = (if truthy (of_optional_filter endpoints)
            then of_optional_filter endpoints else VNone)
      /\ kw_get loader "method"
         = (if truthy (of_optional_filter methods)
            then of_optional_filter methods else VNone))
  /\ (kw_has opts "api_options"
         = (truthy (of_optional_str base_url) || truthy (of_optional_pair auth)
            || truthy (of_headers headers))%bool
      /\ kw_has opts "loader_options"
         = (truthy (of_optional_filter endpoints) || truthy (of_optional_filter methods))%bool
      /\ kw_group opts "api_options" = api
      /\ kw_group opts "loader_options" = loader)
  /\ last (engine_calls
             (snd (run schema auth auth_type headers checks endpoints methods base_url w)))
       = Some (Call schema (selected_checks checks) opts)
  /\ last (engine_calls
             (snd (run schema None auth_type [] checks (Some []) (Some []) None w)))
       = Some (Call schema (selected_checks checks) [])
  /\ last (engine_calls (snd (run schema None auth_type [] checks None None None w)))
       = Some (Call schema (selected_checks checks) []).
Proof.
  intros cred api loader opts.
  repeat match goal with |- _ /\ _ => split end;
    try (rewrite run_engine_call, last_snoc; reflexivity);
    subst cred api loader opts;
    unfold options, api_options, loader_options, resolved_auth;
    destruct base_url as [[|c url]|], auth as [[username password]|],
      headers as [|header headers'], endpoints as [[|endpoint endpoints']|],
      methods as [[|method methods']|];
    try destruct (String.eqb auth_type "digest"); reflexivity.
Qed.

(** C5: without an auth pair no credential is produced and the [auth] key is
    absent from the options; with a pair, mode [basic] passes the plain pair
    on and mode [digest] passes the [HTTPDigestAuth] object built from the
    same pair. *)
Theorem credential_resolution (username password auth_type : string)
    (headers : list (string * string)) (endpoints methods : option (list string))
    (base_url : option string) :
  (resolved_auth None auth_type = VNone
   /\ kw_has (kw_group (options None auth_type headers endpoints methods base_url)
                       "api_options") "auth" = false)
  /\ (resolved_auth (Some (username, password)) "basic"
       = VTuple [VStr username; VStr password]
      /\ kw_get (kw_group (options (Some (username, password)) "basic" headers
                                   endpoints methods base_url) "api_options") "auth"
         = VTuple [VStr username; VStr password])
  /\ (resolved_auth (Some (username, password)) "digest"
       = HTTPDigestAuth username password
      /\ kw_get (kw_group (options (Some (username, password)) "digest" headers
                                   endpoints methods base_url) "api_options") "auth"
         = HTTPDigestAuth username password).
Proof.
  repeat match goal with |- _ /\ _ => split end; try reflexivity;
    destruct base_url as [[|c url]|], headers as [|header headers'],
      endpoints as [[|endpoint endpoints']|], methods as [[|method methods']|];
    reflexivity.
Qed.

(** C6: a mode that is [digest] up to letter case is converted by the
    [--auth-type] option to [digest], so the credential is the same
    [HTTPDigestAuth] object as for [digest] itself. *)
Theorem auth_type_case_insensitive (mode username password : string) :
  lower mode = "digest" ->
  exists auth_type,
    Choice_convert auth_type_choice mode = Some auth_type
    /\ resolved_auth (Some (username, password)) auth_type
       = HTTPDigestAuth username password
    /\ resolved_auth (Some (username, password)) auth_type
       = resolved_auth (Some (username, password)) "digest".
Proof.
  intros Hl. exists "digest". split; [|done].
  unfold Choice_convert. case_bool_decide as Hin.
  - simpl in Hin. apply elem_of_cons in Hin as [->|Hin]; [discriminate Hl|].
    apply elem_of_cons in Hin as [->|Hin]; [done|]. by apply elem_of_nil in Hin.
  - simpl. rewrite Hl. reflexivity.
Qed.

Lemma last_banner (before report : list string) (banner : string) :
  last (before ++ [running_line] ++ report ++ [newline] ++ [banner]) = Some banner.
Proof. by rewrite !app_assoc, last_snoc. Qed.

(** C2: when the engine returns statistics, the command returns normally
    (status 0, success banner) exactly when no record has a truthy error
    flag, and raises [Exit(1)] (status 1) after printing the failure banner
    exactly when some record has one; empty statistics succeed. *)
Theorem run_decides_by_error_flags (schema : string) (auth : option (string * string))
    (auth_type : string) (headers : list (string * string)) (checks : list string)
    (endpoints methods : option (list string)) (base_url : option string)
    (chunks : list string) (stats : StatsCollector) (w : world) :
  execute schema (selected_checks checks)
          (options auth auth_type headers endpoints methods base_url)
    = (chunks, inl stats) ->
  let outcome := run schema auth auth_type headers checks endpoints methods base_url w in
  (fst outcome = inl tt /\ exit_status (fst outcome) = 0
   /\ last (sys_stdout (snd outcome)) = Some (style "Tests succeeded." "green" ++ newline)%string
   <-> forall k value, data stats !! k = Some value ->
                       truthy (record_get value "error") = false)
  /\ (fst outcome = inr (Exit 1) /\ exit_status (fst outcome) = 1
      /\ last (sys_stdout (snd outcome)) = Some (style "Tests failed." "red" ++ newline)%string
      <-> exists k value, data stats !! k = Some value
                          /\ truthy (record_get value "error") = true)
  /\ (data stats = ∅ -> fst outcome = inl tt /\ exit_status (fst outcome) = 0).
Proof.
  intros Hex outcome. subst outcome. rewrite (run_returns _ _ _ _ _ _ _ _ _ _ w Hex).
  rewrite <- any_error_false, <- any_error_true.
  destruct (any_error stats) eqn:Hany; cbn [fst snd sys_stdout exit_status];
    rewrite last_banner.
  - split; [|split].
    + split; [intros (Hr & _); discriminate Hr | discriminate].
    + done.
    + intros Hempty. apply any_error_true in Hany as (k & value & Hk & _).
      rewrite Hempty, lookup_empty in Hk. discriminate.
  - split; [|split].
    + done.
    + split; [intros (Hr & _); discriminate Hr | discriminate].
    + done.
Qed.

(** C8: the decision is Python truthiness of [value.get("error")]: the
    command fails with status 1 exactly when some record stores a truthy
    value of any type under [error], and succeeds exactly when every record
    either lacks the key or stores a falsy value. *)
Theorem failure_decided_by_truthiness (schema : string) (auth : option (string * string))
    (auth_type : string) (headers : list (string * string)) (checks : list string)
    (endpoints methods : option (list string)) (base_url : option string)
    (chunks : list string) (stats : StatsCollector) (w : world) :
  execute schema (selected_checks checks)
          (options auth auth_type headers endpoints methods base_url)
    = (chunks, inl stats) ->
  let outcome := run schema auth auth_type headers checks endpoints methods base_url w in
  (fst outcome = inr (Exit 1) /\ exit_status (fst outcome) = 1
   <-> exists k value e, data stats !! k = Some value /\ value !! "error" = Some e
                         /\ truthy e = true)
  /\ (fst outcome = inl tt /\ exit_status (fst outcome) = 0
      <-> forall k value, data stats !! k = Some value ->
            value !! "error" = None
            \/ exists e, value !! "error" = Some e /\ truthy e = false).
Proof.
  intros Hex outcome. subst outcome. rewrite (run_returns _ _ _ _ _ _ _ _ _ _ w Hex). simpl.
  assert (Htrue : any_error stats = true <->
            exists k value e, data stats !! k = Some value /\ value !! "error" = Some e
                              /\ truthy e = true).
  { rewrite any_error_true. unfold record_get. split.
    - intros (k & value & Hk & Ht). destruct (value !! "error") as [e|] eqn:He;
        [eauto 6 | discriminate Ht].
    - intros (k & value & e & Hk & He & Ht). exists k, value. by rewrite He. }
  assert (Hfalse : any_error stats = false <->
            forall k value, data stats !! k = Some value ->
              value !! "error" = None
              \/ exists e, value !! "error" = Some e /\ truthy e = false).
  { rewrite any_error_false. unfold record_get. split.
    - intros Hall k value Hk. specialize (Hall k value Hk).
      destruct (value !! "error") as [e|]; eauto.
    - intros Hall k value Hk. destruct (Hall k value Hk) as [->|(e & -> & He)]; done. }
  rewrite <- Htrue, <- Hfalse.
  destruct (any_error stats); simpl; split; split; try done;
    intros (Hr & _); discriminate Hr.
Qed.

(** C3: however the engine call ends, the listener scope is left before the
    command ends: the displaced streams and the caller's stream are back in
    place.  When the engine raises, the command raises the same exception
    and the caller's stream gained the first line only, no report and no
    banner; when it returns, report and banner follow on that stream. *)
Theorem listener_released_on_every_exit (schema : string) (auth : option (string * string))
    (auth_type : string) (headers : list (string * string)) (checks : list string)
    (endpoints methods : option (list string)) (base_url : option string)
    (chunks : list string) (result : StatsCollector + exn) (w : world) :
  execute schema (selected_checks checks)
          (options auth auth_type headers endpoints methods base_url)
    = (chunks, result) ->
  let outcome := run schema auth auth_type headers checks endpoints methods base_url w in
  saved_stdout (snd outcome) = saved_stdout w
  /\ (exists printed, sys_stdout (snd outcome) = sys_stdout w ++ printed)
  /\ match result with
     | inr e =>
         fst outcome = inr e
         /\ sys_stdout (snd outcome) = sys_stdout w ++ [running_line]
     | inl stats =>
         exists banner,
           sys_stdout (snd outcome)
           = sys_stdout w ++ [running_line]
               ++ pretty_print_stats stats (String.concat EmptyString chunks)
               ++ [newline] ++ [banner]
     end.
Proof.
  intros Hex outcome. subst outcome. destruct result as [stats|e].
  - rewrite (run_returns _ _ _ _ _ _ _ _ _ _ w Hex). simpl. eauto.
  - rewrite (run_raises _ _ _ _ _ _ _ _ _ _ w Hex). simpl. eauto.
Qed.

(** C4 (amended): when the engine raises after writing diagnostic text, the
    command raises the engine's exception with the listener scope left
    first; the buffered text goes away with the listener: the caller is left
    with what its stream held, the first line and the exception's own
    message. *)
Theorem engine_failure_drops_diagnostics (schema : string) (auth : option (string * string))
    (auth_type : string) (headers : list (string * string)) (checks : list string)
    (endpoints methods : option (list string)) (base_url : option string)
    (chunks : list string) (e : exn) (w : world) :
  execute schema (selected_checks checks)
          (options auth auth_type headers endpoints methods base_url)
    = (chunks, inr e) ->
  let outcome := run schema auth auth_type headers checks endpoints methods base_url w in
  fst outcome = inr e
  /\ saved_stdout (snd outcome) = saved_stdout w
  /\ sys_stdout (snd outcome) = sys_stdout w ++ [running_line]
  /\ caller_text outcome
     = sys_stdout w ++ [running_line]
         ++ match e with Error _ message => [message] | Exit _ => [] end.
Proof.
  intros Hex outcome. subst outcome.
  rewrite (run_raises _ _ _ _ _ _ _ _ _ _ w Hex). unfold caller_text. simpl.
  rewrite <- app_assoc. by destruct e.
Qed.

(** ** Further properties of the command *)

(** X1: without an auth pair the auth type plays no part: the command runs
    the same for any two auth types. *)
Theorem auth_type_ignored_without_auth (schema auth_type auth_type' : string)
    (headers : list (string * string)) (checks : list string)
    (endpoints methods : option (list string)) (base_url : option string) (w : world) :
  options None auth_type headers endpoints methods base_url
  = options None auth_type' headers endpoints methods base_url
  /\ run schema None auth_type headers checks endpoints methods base_url w
     = run schema None auth_type' headers checks endpoints methods base_url w.
Proof. split; reflexivity. Qed.

(** X2: line 83 compares the auth type with [digest] exactly: a pair becomes
    an [HTTPDigestAuth] object for that very string and stays the plain pair
    for every other one, case variants included. *)
Theorem digest_only_for_exact_digest (username password auth_type : string) :
  (resolved_auth (Some (username, password)) auth_type = HTTPDigestAuth username password
   <-> auth_type = "digest")
  /\ (resolved_auth (Some (username, password)) auth_type
       = VTuple [VStr username; VStr password]
      <-> auth_type <> "digest").
Proof.
  unfold resolved_auth. simpl.
  destruct (String.eqb_spec auth_type "digest") as [->|Hne]; split; split;
    try done; try discriminate.
Qed.





(** X5: the selection is empty exactly when no built-in check has a
    requested name; an empty request selects nothing. *)
Theorem selected_checks_empty_iff (checks : list string) :
  (selected_checks checks = [] <->
   forall c, c ∈ DEFAULT_CHECKS -> check_name c ∉ checks)
  /\ selected_checks [] = [].
Proof.
  split.
  - split.
    + intros Hnil c Hc Hname.
      assert (c ∈ selected_checks checks) as Hin by (by apply elem_of_selected_checks).
      rewrite Hnil in Hin. by apply elem_of_nil in Hin.
    + intros Hnone. apply elem_of_nil_inv. intros c Hin.
      apply elem_of_selected_checks in Hin as [Hc Hname]. by apply (Hnone c).
  - unfold selected_checks. induction DEFAULT_CHECKS as [|c l IH]; [done|].
    exact IH.
Qed.

(** X6: the names of the selected checks are exactly the requested names
    that are built-in names: a name outside the vocabulary is ignored and no
    requested built-in name is dropped. *)
Theorem selected_names_are_requested_builtin (checks : list string) (name : string) :
  name ∈ List.map check_name (selected_checks checks)
  <-> name ∈ checks /\ name ∈ DEFAULT_CHECKS_NAMES.
Proof.
  unfold DEFAULT_CHECKS_NAMES.
  rewrite (list_elem_of_In (List.map _ (selected_checks _))), in_map_iff.
  rewrite (list_elem_of_In (List.map _ DEFAULT_CHECKS)), in_map_iff. split.
  - intros (c & <- & Hin). apply list_elem_of_In, elem_of_selected_checks in Hin as [Hc Hn].
    split; [done|]. exists c. split; [done|]. by apply list_elem_of_In.
  - intros (Hn & c & <- & Hc). exists c. split; [done|].
    apply list_elem_of_In, elem_of_selected_checks. split; [|done]. by apply list_elem_of_In.
Qed.

(** X7: selecting again by the names of a selection gives the same
    selection. *)
Theorem selected_checks_round_trip (checks : list string) :
  selected_checks (List.map check_name (selected_checks checks)) = selected_checks checks.
Proof.
  unfold selected_checks at 1 3. apply filter_ext_in. intros c Hc.
  apply bool_decide_ext. split.
  - intros Hn. apply list_elem_of_In, in_map_iff in Hn as (c' & Heq & Hin).
    apply list_elem_of_In, elem_of_selected_checks in Hin as [_ Hn]. by rewrite <- Heq.
  - intros Hn. apply list_elem_of_In, in_map. apply list_elem_of_In, elem_of_selected_checks.
    split; [|done]. by apply list_elem_of_In.
Qed.

Lemma filter_sublist_mono {A : Type} (f g : A -> bool) (l : list A) :
  (forall a, f a = true -> g a = true) -> sublist (List.filter f l) (List.filter g l).
Proof.
  intros Hfg. induction l as [|a l IH]; simpl; [constructor|].
  destruct (f a) eqn:Hf.
  - rewrite (Hfg a Hf). by constructor.
  - destruct (g a); [by constructor | done].
Qed.

(** X8: requesting more names never loses a check: when every name of one
    request is in another, the first selection is a sublist of the second. *)
Theorem selected_checks_monotone (checks1 checks2 : list string) :
  (forall name, name ∈ checks1 -> name ∈ checks2) ->
  sublist (selected_checks checks1) (selected_checks checks2).
Proof.
  intros Hsub. apply filter_sublist_mono. intros c Hc.
  apply bool_decide_eq_true. apply bool_decide_eq_true in Hc. by apply Hsub.
Qed.

Lemma find_eqb_not_elem (name : string) (l : list string) :
  name ∉ l -> List.find (fun c => String.eqb c name) l = None.
Proof.
  induction l as [|c l IH]; simpl; [done|]. intros Hnot.
  apply not_elem_of_cons in Hnot as [Hne Hnot].
  destruct (String.eqb_spec c name) as [->|_]; [done|]. by apply IH.
Qed.

(** X9: the [--checks] option accepts exactly the built-in names, letter
    case included, and passes them on unchanged; every accepted name that is
    requested is the name of at least one selected check. *)
Theorem checks_option_accepts_builtin_names (name : string) :
  (forall t, Choice_convert checks_choice name = Some t
             <-> t = name /\ name ∈ DEFAULT_CHECKS_NAMES)
  /\ (Choice_convert checks_choice name = None <-> name ∉ DEFAULT_CHECKS_NAMES)
  /\ (forall t checks, Choice_convert checks_choice name = Some t -> t ∈ checks ->
         exists c, c ∈ selected_checks checks /\ check_name c = t).
Proof.
  assert (Hconv : Choice_convert checks_choice name
                  = if bool_decide (name ∈ DEFAULT_CHECKS_NAMES) then Some name else None).
  { unfold Choice_convert. simpl. case_bool_decide as Hin; [done|].
    by apply find_eqb_not_elem. }
  rewrite Hconv. split; [|split].
  - intros t. case_bool_decide as Hin; split.
    + by intros [= <-].
    + by intros [-> _].
    + discriminate.
    + by intros [_ ?].
  - by case_bool_decide.
  - intros t checks. case_bool_decide as Hin; [|discriminate]. intros [= <-] Hreq.
    unfold DEFAULT_CHECKS_NAMES in Hin.
    apply list_elem_of_In, in_map_iff in Hin as (c & Hname & Hc).
    exists c. split; [|done]. apply elem_of_selected_checks. rewrite Hname.
    split; [by apply list_elem_of_In | done].
Qed.

(** X10: the command calls the engine exactly once, whether the call
    returns or raises: the calls made before are untouched, one call is
    added, and it carries the schema as given. *)
Theorem run_calls_engine_exactly_once (schema : string) (auth : option (string * string))
    (auth_type : string) (headers : list (string * string)) (checks : list string)
    (endpoints methods : option (list string)) (base_url : option string) (w : world) :
  let calls := engine_calls
                 (snd (run schema auth auth_type headers checks endpoints methods base_url w)) in
  List.length calls = S (List.length (engine_calls w))
  /\ take (List.length (engine_calls w)) calls = engine_calls w
  /\ call_schema <$> last calls = Some schema.
Proof.
  intros calls. subst calls. rewrite run_engine_call.
  rewrite length_app, last_snoc, take_app_length. simpl. split; [lia|done].
Qed.

End Run.

Arguments World {check}.
Arguments Call {check}.
Arguments sys_stdout {check}.
Arguments saved_stdout {check}.
Arguments engine_calls {check}.
Arguments call_checks {check}.
Arguments call_options {check}.
Arguments selected_checks {check}.
Arguments run {check}.
Arguments caller_text {check}.
Arguments diagnostics_preserved {check}.

Lemma any_error_mono (stats1 stats2 : StatsCollector) :
  dom (data stats1) = dom (data stats2) ->
  (forall k (r1 r2 : record), data stats1 !! k = Some r1 -> data stats2 !! k = Some r2 ->
                   r1 !! "error" = r2 !! "error") ->
  any_error stats1 = true -> any_error stats2 = true.
Proof.
  intros Hdom Herr. rewrite !any_error_true. intros (k & r1 & Hk & Ht).
  assert (is_Some (data stats2 !! k)) as [r2 Hk2].
  { apply elem_of_dom. rewrite <- Hdom. apply elem_of_dom. eauto. }
  exists k, r2. split; [done|].
  unfold record_get in *. by rewrite <- (Herr k r1 r2 Hk Hk2).
Qed.

(** C10: two engine results with the same keys and, key by key, the same
    value under [error] end the command the same way, with the same exit
    status, whatever else the records, the diagnostics, the report or the
    two worlds hold. *)
Theorem decision_depends_only_on_error_flags {check : Type}
    (check_name : check -> string) (DEFAULT_CHECKS : list check)
    (execute1 execute2 : string -> list check -> kwargs
                         -> list string * (StatsCollector + exn))
    (pretty_print_stats1 pretty_print_stats2 : StatsCollector -> string -> list string)
    (style : string -> string -> string)
    (schema : string) (auth : option (string * string)) (auth_type : string)
    (headers : list (string * string)) (checks : list string)
    (endpoints methods : option (list string)) (base_url : option string)
    (chunks1 chunks2 : list string) (stats1 stats2 : StatsCollector)
    (w1 w2 : world check) :
  execute1 schema (selected_checks check_name DEFAULT_CHECKS checks)
           (options auth auth_type headers endpoints methods base_url)
    = (chunks1, inl stats1) ->
  execute2 schema (selected_checks check_name DEFAULT_CHECKS checks)
           (options auth auth_type headers endpoints methods base_url)
    = (chunks2, inl stats2) ->
  dom (data stats1) = dom (data stats2) ->
  (forall k (r1 r2 : record), data stats1 !! k = Some r1 -> data stats2 !! k = Some r2 ->
                   r1 !! "error" = r2 !! "error") ->
  let outcome1 := run check_name DEFAULT_CHECKS execute1 pretty_print_stats1 style
                      schema auth auth_type headers checks endpoints methods base_url w1 in
  let outcome2 := run check_name DEFAULT_CHECKS execute2 pretty_print_stats2 style
                      schema auth auth_type headers checks endpoints methods base_url w2 in
  fst outcome1 = fst outcome2
  /\ exit_status (fst outcome1) = exit_status (fst outcome2).
Proof.
  intros Hex1 Hex2 Hdom Herr outcome1 outcome2. subst outcome1 outcome2.
  rewrite (run_returns _ _ _ _ _ _ _ _ _ _ _ _ _ _ _ _ w1 Hex1),
          (run_returns _ _ _ _ _ _ _ _ _ _ _ _ _ _ _ _ w2 Hex2).
  assert (any_error stats1 = any_error stats2) as ->; [|done].
  apply eq_true_iff_eq. split.
  - by apply any_error_mono.
  - apply any_error_mono; [done|]. intros k r2 r1 Hk2 Hk1. symmetry. eauto.
Qed.

(** ** The command on the sample engines *)

Lemma run_decides_by_error_flags_witness :
  let outcome := run id sample_checks failing_engine sample_report sample_style
                     sample_schema None "basic" [] sample_checks (Some []) (Some []) None
                     (World [] [] []) in
  failing_engine sample_schema (selected_checks id sample_checks sample_checks)
                 (options None "basic" [] (Some []) (Some []) None)
    = (["Falsifying example"], inl sample_failed)
  /\ fst outcome = inr (Exit 1)
  /\ exit_status (fst outcome) = 1
  /\ last (sys_stdout (snd outcome)) = Some (sample_style "Tests failed." "red" ++ newline)%string.
Proof.
  intros outcome. split; [reflexivity|].
  apply (run_decides_by_error_flags string id sample_checks failing_engine sample_report
           sample_style sample_schema None "basic" [] sample_checks (Some []) (Some [])
           None ["Falsifying example"] sample_failed (World [] [] []) eq_refl).
  exists "not_a_server_error",
    (<["error" := VInt 1]> (<["ok" := VInt 1]> {[ "total" := VInt 2 ]})).
  split; vm_compute; reflexivity.
Defined.

Lemma failure_decided_by_truthiness_witness :
  let outcome := run id sample_checks failing_engine sample_report sample_style
                     sample_schema None "basic" [] sample_checks (Some []) (Some []) None
                     (World [] [] []) in
  failing_engine sample_schema (selected_checks id sample_checks sample_checks)
                 (options None "basic" [] (Some []) (Some []) None)
    = (["Falsifying example"], inl sample_failed)
  /\ fst outcome = inr (Exit 1)
  /\ exit_status (fst outcome) = 1.
Proof.
  intros outcome. split; [reflexivity|].
  apply (failure_decided_by_truthiness string id sample_checks failing_engine sample_report
           sample_style sample_schema None "basic" [] sample_checks (Some []) (Some [])
           None ["Falsifying example"] sample_failed (World [] [] []) eq_refl).
  exists "not_a_server_error",
    (<["error" := VInt 1]> (<["ok" := VInt 1]> {[ "total" := VInt 2 ]})), (VInt 1).
  repeat split; vm_compute; reflexivity.
Defined.

Lemma listener_released_on_every_exit_witness :
  let outcome := run id sample_checks raising_engine sample_report sample_style
                     sample_schema None "basic" [] sample_checks (Some []) (Some []) None
                     (World ["$ schemathesis run"] [["outer capture"]] []) in
  raising_engine sample_schema (selected_checks id sample_checks sample_checks)
                 (options None "basic" [] (Some []) (Some []) None)
    = (["X-diagnostic"], inr (Error "ConnectionError" "schema unreachable"))
  /\ saved_stdout (snd outcome) = [["outer capture"]]
  /\ fst outcome = inr (Error "ConnectionError" "schema unreachable")
  /\ sys_stdout (snd outcome) = ["$ schemathesis run"; running_line].
Proof.
  intros outcome. split; [reflexivity|].
  destruct (listener_released_on_every_exit string id sample_checks raising_engine sample_report
              sample_style sample_schema None "basic" [] sample_checks (Some []) (Some [])
              None ["X-diagnostic"] (inr (Error "ConnectionError" "schema unreachable"))
              (World ["$ schemathesis run"] [["outer capture"]] []) eq_refl)
    as (Hsaved & _ & Hraised & Hout).
  repeat split; assumption.
Defined.

Lemma engine_failure_drops_diagnostics_witness :
  let outcome := run id sample_checks raising_engine sample_report sample_style
                     sample_schema None "basic" [] sample_checks (Some []) (Some []) None
                     (World [] [] []) in
  raising_engine sample_schema (selected_checks id sample_checks sample_checks)
                 (options None "basic" [] (Some []) (Some []) None)
    = (["X-diagnostic"], inr (Error "ConnectionError" "schema unreachable"))
  /\ fst outcome = inr (Error "ConnectionError" "schema unreachable")
  /\ saved_stdout (snd outcome) = []
  /\ sys_stdout (snd outcome) = [running_line]
  /\ caller_text outcome = [running_line; "schema unreachable"].
Proof.
  intros outcome. split; [reflexivity|].
  exact (engine_failure_drops_diagnostics string id sample_checks raising_engine sample_report
           sample_style sample_schema None "basic" [] sample_checks (Some []) (Some [])
           None ["X-diagnostic"] (Error "ConnectionError" "schema unreachable")
           (World [] [] []) eq_refl).
Defined.

(** C4 as stated fails: the sample engine writes [X-diagnostic] to the
    captured stream and raises; the command raises the same exception, the
    caller's stream holds the first line only, and the diagnostic text is
    neither there nor in the exception. *)
Lemma engine_diagnostics_lost :
  let outcome := run id sample_checks raising_engine sample_report sample_style
                     sample_schema None "basic" [] sample_checks (Some []) (Some []) None
                     (World [] [] []) in
  raising_engine sample_schema (selected_checks id sample_checks sample_checks)
                 (options None "basic" [] (Some []) (Some []) None)
    = (["X-diagnostic"], inr (Error "ConnectionError" "schema unreachable"))
  /\ outcome
     = (inr (Error "ConnectionError" "schema unreachable"),
        World [running_line] [] [Call sample_schema sample_checks []])
  /\ diagnostics_preserved "X-diagnostic" outcome = false
  /\ ~ (exists text, text ∈ caller_text outcome
                      /\ occurs_in "X-diagnostic" text = true).
Proof.
  intros outcome. split; [reflexivity|]. split; [reflexivity|]. split; [reflexivity|].
  intros (text & Hin & Hocc). vm_compute in Hin.
  apply elem_of_cons in Hin as [->|Hin]; [discriminate Hocc|].
  apply elem_of_cons in Hin as [->|Hin]; [discriminate Hocc|].
  by apply elem_of_nil in Hin.
Qed.

Lemma auth_type_case_insensitive_witness :
  lower "DIGEST" = "digest"
  /\ exists auth_type,
       Choice_convert auth_type_choice "DIGEST" = Some auth_type
       /\ resolved_auth (Some ("u", "p")) auth_type = HTTPDigestAuth "u" "p"
       /\ resolved_auth (Some ("u", "p")) auth_type = resolved_auth (Some ("u", "p")) "digest".
Proof.
  split; [reflexivity|].
  exact (auth_type_case_insensitive "DIGEST" "u" "p" eq_refl).
Defined.

Lemma selected_checks_set_invariant_witness :
  let requested1 := ["status_code_conformance"; "not_a_server_error";
                     "status_code_conformance"] in
  let requested2 := ["not_a_server_error"; "status_code_conformance"] in
  (forall name : string, name ∈ requested1 <-> name ∈ requested2)
  /\ selected_checks id sample_checks requested1 = selected_checks id sample_checks requested2
  /\ sublist (selected_checks id sample_checks requested1) sample_checks
  /\ (NoDup sample_checks -> NoDup (selected_checks id sample_checks requested1)).
Proof.
  intros requested1 requested2.
  assert (Hsame : forall name : string, name ∈ requested1 <-> name ∈ requested2).
  { intros name. subst requested1 requested2. rewrite !elem_of_cons. tauto. }
  split; [exact Hsame|].
  exact (selected_checks_set_invariant string id sample_checks requested1 requested2 Hsame).
Defined.

Lemma decision_depends_only_on_error_flags_witness :
  let outcome1 := run id sample_checks failing_engine sample_report sample_style
                      sample_schema None "basic" [] sample_checks (Some []) (Some []) None
                      (World [] [] []) in
  let outcome2 := run id sample_checks failing_engine_verbose sample_report sample_style
                      sample_schema None "basic" [] sample_checks (Some []) (Some []) None
                      (World ["earlier output"] [] []) in
  (dom (data sample_failed) = dom (data sample_failed_verbose)
   /\ forall k (r1 r2 : record),
        data sample_failed !! k = Some r1 -> data sample_failed_verbose !! k = Some r2 ->
        r1 !! "error" = r2 !! "error")
  /\ fst outcome1 = fst outcome2
  /\ exit_status (fst outcome1) = exit_status (fst outcome2).
Proof.
  intros outcome1 outcome2.
  assert (Hdom : dom (data sample_failed) = dom (data sample_failed_verbose)).
  { vm_compute. reflexivity. }
  assert (Herr : forall k (r1 r2 : record),
             data sample_failed !! k = Some r1 -> data sample_failed_verbose !! k = Some r2 ->
             r1 !! "error" = r2 !! "error").
  { intros k r1 r2 H1 H2. simpl in H1, H2.
    apply lookup_singleton_Some in H1 as [_ <-].
    apply lookup_singleton_Some in H2 as [_ <-].
    vm_compute. reflexivity. }
  split; [split; assumption|].
  exact (decision_depends_only_on_error_flags id sample_checks failing_engine
           failing_engine_verbose sample_report sample_report sample_style sample_schema
           None "basic" [] sample_checks (Some []) (Some []) None
           ["Falsifying example"] ["Falsifying example"; "shrunk 40 times"]
           sample_failed sample_failed_verbose (World [] [] []) (World ["earlier output"] [] [])
           eq_refl eq_refl Hdom Herr).
Defined.

(** ** Further properties of the decision *)

(** X11: the decision over two results with different keys put together is
    the disjunction of the two decisions: one failing record anywhere fails
    the whole, and records that pass add nothing. *)
Theorem any_error_union (stats1 stats2 : StatsCollector) :
  data stats1 ##ₘ data stats2 ->
  any_error {| data := data stats1 ∪ data stats2 |}
  = (any_error stats1 || any_error stats2)%bool.
Proof.
  intros Hdisj. apply eq_true_iff_eq.
  rewrite orb_true_iff, !any_error_true. simpl. split.
  - intros (k & value & Hk & Ht). apply lookup_union_Some in Hk; [|done].
    destruct Hk as [Hk|Hk]; [left|right]; eauto.
  - intros [(k & value & Hk & Ht)|(k & value & Hk & Ht)]; exists k, value;
      (split; [apply lookup_union_Some; auto | done]).
Qed.

Lemma existsb_Permutation {A : Type} (f : A -> bool) (l1 l2 : list A) :
  l1 ≡ₚ l2 -> existsb f l1 = existsb f l2.
Proof.
  intros Hperm. apply eq_true_iff_eq. rewrite !existsb_exists.
  split; intros (a & Hin & Hf); exists a; (split; [|done]);
    apply list_elem_of_In; apply list_elem_of_In in Hin.
  - by rewrite <- Hperm.
  - by rewrite Hperm.
Qed.

(** X12: the decision reads the records only, not the keys they are stored
    under: two results holding the same records, under whatever keys and in
    whatever order, are decided alike. *)
Theorem any_error_ignores_keys (stats1 stats2 : StatsCollector) :
  data_values stats1 ≡ₚ data_values stats2 ->
  any_error stats1 = any_error stats2.
Proof. intros Hperm. unfold any_error. by apply existsb_Permutation. Qed.

(** ** The further properties on the sample engines *)


Lemma selected_checks_monotone_witness :
  (forall name : string, name ∈ ["status_code_conformance"] -> name ∈ sample_checks)
  /\ sublist (selected_checks id sample_checks ["status_code_conformance"])
             (selected_checks id sample_checks sample_checks).
Proof.
  assert (Hsub : forall name : string,
             name ∈ ["status_code_conformance"] -> name ∈ sample_checks).
  { intros name Hin. apply list_elem_of_singleton in Hin as ->.
    unfold sample_checks. rewrite !elem_of_cons. auto. }
  split; [exact Hsub|].
  exact (selected_checks_monotone string id sample_checks
           ["status_code_conformance"] sample_checks Hsub).
Defined.

Lemma any_error_union_witness :
  let other := {| data := {[ "status_code_conformance" := {[ "error" := VInt 2 ]} ]} |} in
  data sample_passed ##ₘ data other
  /\ any_error {| data := data sample_passed ∪ data other |} = true.
Proof.
  intros other.
  assert (Hdisj : data sample_passed ##ₘ data other).
  { apply map_disjoint_singleton_l_2. by apply lookup_singleton_ne. }
  split; [exact Hdisj|].
  exact (any_error_union sample_passed other Hdisj).
Defined.

Lemma any_error_ignores_keys_witness :
  let renamed := {| data := {[ "GET /users" :=
                     <["error" := VInt 1]> (<["ok" := VInt 1]> {[ "total" := VInt 2 ]}) ]} |} in
  data_values sample_failed ≡ₚ data_values renamed
  /\ any_error sample_failed = any_error renamed.
Proof.
  intros renamed.
  assert (Hperm : data_values sample_failed ≡ₚ data_values renamed).
  { vm_compute. reflexivity. }
  split; [exact Hperm|].
  exact (any_error_ignores_keys sample_failed renamed Hperm).
Defined.
